(** * session_run_hook.py: hooks around [MonitoredSession.run()]

    A shallow embedding of [tensorflow/python/training/session_run_hook.py]
    and the properties of its four classes:

    - [SessionRunHook]: four callbacks with no-op defaults;
    - [SessionRunArgs]: a namedtuple [(fetches, feed_dict, options)] whose
      [__new__] gives the last two fields the default [None];
    - [SessionRunContext]: a mutable object holding the original arguments,
      the session and the stop flag;
    - [SessionRunValues]: a namedtuple [(results, options, run_metadata)].

    The Python that the file relies on is modelled as far as the file uses
    it: values, tuple equality, the binding of call arguments to
    parameters, [collections.namedtuple], and a heap of objects with
    attribute dictionaries. *)

From stdpp Require Import gmap strings list fin_maps.
From Stdlib Require Import ZArith.

Set Warnings "-register-all".

Local Open Scope string_scope.
Local Open Scope nat_scope.

(** ** Python values *)

(** Objects with identity live in the heap and are named by a location. *)
Abbreviation loc := positive.

(** The values the module passes around.  Tensors, operations, sessions and
    protocol buffers are opaque to it: they are references [VRef].  [fetches]
    and [results] nest lists, tuples and dictionaries arbitrarily.  A tuple
    carries the name of its class, which is ["tuple"] or that of a
    namedtuple subclass. *)
Inductive value : Type :=
  | VNone
  | VBool (b : bool)
  | VInt (n : Z)
  | VStr (s : string)
  | VRef (l : loc)
  | VList (xs : list value)
  | VTuple (cls : string) (xs : list value)
  | VDict (kvs : list (string * value)).

Inductive exn : Type :=
  | TypeError
  | AttributeError
  | IndexError
  | NoSuchObject. (* a location that names no object; no Python program sees it *)

(** The outcome of an expression: a value or a raised exception. *)
Inductive result (A : Type) : Type :=
  | Ok (a : A)
  | Raise (e : exn).
Arguments Ok {A} a.
Arguments Raise {A} e.

#[global] Instance result_ret : MRet result := @Ok.
#[global] Instance result_bind : MBind result := λ A B f r,
  match r with
  | Ok a => f a
  | Raise e => Raise e
  end.
#[global] Instance result_fmap : FMap result := λ A B f r,
  match r with
  | Ok a => Ok (f a)
  | Raise e => Raise e
  end.

Definition is_ok {A} (r : result A) : bool :=
  match r with
  | Ok _ => true
  | Raise _ => false
  end.

(** ** Equality of values: Python's [==] *)

(** Sequences are equal when they have the same length and equal items. *)
Definition seq_eq {A} (eq : A → A → bool) : list A → list A → bool :=
  fix go xs ys :=
    match xs, ys with
    | [], [] => true
    | x :: xs', y :: ys' => eq x y && go xs' ys'
    | _, _ => false
    end.

Fixpoint assoc {A} (k : string) (kvs : list (string * A)) : option A :=
  match kvs with
  | [] => None
  | (k', v) :: kvs' => if String.eqb k k' then Some v else assoc k kvs'
  end.

(** Dictionaries are equal when they have the same size and every key of the
    first maps to an equal item in the second (keys of a dictionary are
    distinct). *)
Definition dict_eq {A} (eq : A → A → bool) (kvs kws : list (string * A)) : bool :=
  Nat.eqb (length kvs) (length kws) &&
  forallb (λ kv, match assoc kv.1 kws with
                 | Some w => eq kv.2 w
                 | None => false
                 end) kvs.

(** [bool] is a subclass of [int]: [True == 1].  References compare by
    identity.  The class of a tuple takes no part in [tuple.__eq__], which
    namedtuples inherit. *)
Fixpoint py_eq (v w : value) {struct v} : bool :=
  match v, w with
  | VNone, VNone => true
  | VBool a, VBool b => Bool.eqb a b
  | VBool a, VInt n => Z.eqb (Z.b2z a) n
  | VInt n, VBool a => Z.eqb n (Z.b2z a)
  | VInt m, VInt n => Z.eqb m n
  | VStr s, VStr t => String.eqb s t
  | VRef l, VRef k => Pos.eqb l k
  | VList xs, VList ys => seq_eq py_eq xs ys
  | VTuple _ xs, VTuple _ ys => seq_eq py_eq xs ys
  | VDict kvs, VDict kws => dict_eq py_eq kvs kws
  | _, _ => false
  end.

(** ** Calls: binding arguments to parameters *)

(** A parameter of a [def]: its name and, when it has one, its default. *)
Record param : Type := Param { p_name : string; p_default : option value }.

(** A call of [f] with positional arguments [args] and keyword arguments
    [kwargs], against the parameter list of [f] (after [self] or
    [cls]).  A positional argument fills the next parameter, and it is an
    error to give that parameter by keyword too; a parameter left without a
    positional argument takes its keyword, else its default, else the call
    fails; a keyword that names no parameter, or a positional argument
    beyond the last parameter, fails the call.  All failures are
    [TypeError]. *)
Fixpoint bind_params (params : list param) (args : list value)
    (kwargs : gmap string value) : result (list value) :=
  match params with
  | [] =>
      match args with
      | [] => if Nat.eqb (size kwargs) 0 then Ok [] else Raise TypeError
      | _ :: _ => Raise TypeError
      end
  | p :: params' =>
      match args with
      | a :: args' =>
          match kwargs !! p_name p with
          | Some _ => Raise TypeError
          | None => cons a <$> bind_params params' args' kwargs
          end
      | [] =>
          match kwargs !! p_name p with
          | Some v => cons v <$> bind_params params' [] (delete (p_name p) kwargs)
          | None =>
              match p_default p with
              | Some d => cons d <$> bind_params params' [] kwargs
              | None => Raise TypeError
              end
          end
      end
  end.

(** ** Classes *)

(** The classes the module defines or builds on, and those defined
    elsewhere.  The class that [collections.namedtuple(typename, ...)] makes
    and the class of the module that derives from it have the same name and
    are two classes. *)
Inductive class_id : Type :=
  | CObject
  | CTuple
  | CNamedTupleBase (typename : string)
  | CSessionRunHook
  | CSessionRunArgs
  | CSessionRunContext
  | CSessionRunValues
  | CUser (name : string).

Definition is_class (c d : class_id) : bool :=
  match c, d with
  | CObject, CObject
  | CTuple, CTuple
  | CSessionRunHook, CSessionRunHook
  | CSessionRunArgs, CSessionRunArgs
  | CSessionRunContext, CSessionRunContext
  | CSessionRunValues, CSessionRunValues => true
  | CNamedTupleBase s, CNamedTupleBase t => String.eqb s t
  | CUser s, CUser t => String.eqb s t
  | _, _ => false
  end.

(** A class as a call receives it: its name and its method resolution
    order, which starts with the class itself and lists its bases. *)
Record pyclass : Type := PyClass { __name__ : string; __mro__ : list class_id }.

(** [issubclass(cls, c)] *)
Definition issubclass (cls : pyclass) (c : class_id) : bool :=
  existsb (is_class c) (__mro__ cls).

Definition tuple_class : pyclass := PyClass "tuple" [CTuple; CObject].

(** ** [collections.namedtuple] *)

(** The class that [collections.namedtuple(typename, field_names)] makes. *)
Record namedtuple_class : Type :=
  namedtuple { typename : string; _fields : list string }.

(** [operator.itemgetter(i)] on a sequence. *)
Definition itemgetter (i : nat) (v : value) : result value :=
  match v with
  | VList xs | VTuple _ xs =>
      match xs !! i with
      | Some x => Ok x
      | None => Raise IndexError
      end
  | _ => Raise TypeError
  end.

Fixpoint index_of (name : string) (names : list string) : option nat :=
  match names with
  | [] => None
  | n :: names' => if String.eqb name n then Some 0 else S <$> index_of name names'
  end.

Module NamedTuple.

(** The generated [__new__(_cls, f1, ..., fn)]: every field is a parameter
    without default, and the result is [tuple.__new__(_cls, (f1, ..., fn))]. *)
Definition signature (nt : namedtuple_class) : list param :=
  map (λ name, Param name None) (_fields nt).

Definition __new__ (nt : namedtuple_class) (cls : string)
    (args : list value) (kwargs : gmap string value) : result value :=
  items ← bind_params (signature nt) args kwargs;
  Ok (VTuple cls items).

(** The generated property of a field: [property(itemgetter(index))]. *)
Definition getfield (nt : namedtuple_class) (name : string) (v : value) : result value :=
  match index_of name (_fields nt) with
  | Some i => itemgetter i v
  | None => Raise AttributeError
  end.

End NamedTuple.

(** ** [class SessionRunArgs] *)

Module SessionRunArgs.

Definition base : namedtuple_class :=
  namedtuple "SessionRunArgs" ["fetches"; "feed_dict"; "options"].

(** [def __new__(cls, fetches, feed_dict=None, options=None)] *)
Definition signature : list param :=
  [Param "fetches" None; Param "feed_dict" (Some VNone); Param "options" (Some VNone)].

(** [class SessionRunArgs(collections.namedtuple("SessionRunArgs", ...))] *)
Definition cls : pyclass :=
  PyClass "SessionRunArgs"
    [CSessionRunArgs; CNamedTupleBase "SessionRunArgs"; CTuple; CObject].

(** [return super(SessionRunArgs, cls).__new__(cls, fetches, feed_dict, options)]

    [super(SessionRunArgs, cls)] raises [TypeError] unless [cls] is
    [SessionRunArgs] or a subclass of it; the [__new__] it then finds is the
    namedtuple's, which makes the instance of [cls]. *)
Definition __new__ (cls : pyclass) (fetches feed_dict options : value) : result value :=
  if issubclass cls CSessionRunArgs
  then NamedTuple.__new__ base (__name__ cls) [fetches; feed_dict; options] ∅
  else Raise TypeError.

(** A call of the class, [SessionRunArgs(...)], with [args] and [kwargs]. *)
Definition call (args : list value) (kwargs : gmap string value) : result value :=
  bound ← bind_params signature args kwargs;
  match bound with
  | [fetches; feed_dict; options] => __new__ cls fetches feed_dict options
  | _ => Raise TypeError
  end.

Definition fetches : value → result value := NamedTuple.getfield base "fetches".
Definition feed_dict : value → result value := NamedTuple.getfield base "feed_dict".
Definition options : value → result value := NamedTuple.getfield base "options".

End SessionRunArgs.

(** ** [class SessionRunValues] *)

Module SessionRunValues.

Definition base : namedtuple_class :=
  namedtuple "SessionRunValues" ["results"; "options"; "run_metadata"].

(** [class SessionRunValues(collections.namedtuple("SessionRunValues", ...))] *)
Definition cls : pyclass :=
  PyClass "SessionRunValues"
    [CSessionRunValues; CNamedTupleBase "SessionRunValues"; CTuple; CObject].

(** The class has no [__new__] of its own: a call [SessionRunValues(...)]
    goes to the namedtuple's. *)
Definition call (args : list value) (kwargs : gmap string value) : result value :=
  NamedTuple.__new__ base "SessionRunValues" args kwargs.

Definition results : value → result value := NamedTuple.getfield base "results".
Definition options : value → result value := NamedTuple.getfield base "options".
Definition run_metadata : value → result value := NamedTuple.getfield base "run_metadata".

End SessionRunValues.

(** ** Objects and the heap *)

(** An instance of a class written with [class]: the name of its class and
    its attribute dictionary. *)
Record object : Type := Object { ob_class : string; ob_dict : gmap string value }.

Abbreviation heap := (gmap loc object).

(** A statement or expression that may read and write the heap, and that
    returns or raises.  What it wrote before raising stays written. *)
Definition M (A : Type) : Type := heap → result A * heap.

#[global] Instance M_ret : MRet M := λ A a h, (Ok a, h).
#[global] Instance M_bind : MBind M := λ A B f m h,
  match m h with
  | (Ok a, h') => f a h'
  | (Raise e, h') => (Raise e, h')
  end.

(** [object.__new__(cls)]: a new object, with no attribute yet. *)
Definition alloc (cls : string) : M loc := λ h,
  let l := fresh (dom h) in (Ok l, <[l := Object cls ∅]> h).

(** [self.name], read. *)
Definition getattr (self : loc) (name : string) : M value := λ h,
  match h !! self with
  | Some o =>
      match ob_dict o !! name with
      | Some v => (Ok v, h)
      | None => (Raise AttributeError, h)
      end
  | None => (Raise NoSuchObject, h)
  end.

(** [self.name = v] *)
Definition setattr (self : loc) (name : string) (v : value) : M unit := λ h,
  match h !! self with
  | Some o => (Ok (), <[self := Object (ob_class o) (<[name := v]> (ob_dict o))]> h)
  | None => (Raise NoSuchObject, h)
  end.

(** ** [class SessionRunContext] *)

Module SessionRunContext.

Definition __init__ (self : loc) (original_args session : value) : M value :=
  setattr self "_original_args" original_args;;
  setattr self "_session" session;;
  setattr self "_stop_requested" (VBool false);;
  mret VNone.

Definition original_args (self : loc) : M value :=
  getattr self "_original_args".

Definition session (self : loc) : M value :=
  getattr self "_session".

Definition stop_requested (self : loc) : M value :=
  getattr self "_stop_requested".

Definition request_stop (self : loc) : M value :=
  setattr self "_stop_requested" (VBool true);;
  mret VNone.

(** [SessionRunContext(original_args, session)] *)
Definition call (original_args session : value) : M loc :=
  self ← alloc "SessionRunContext";
  __init__ self original_args session;;
  mret self.

End SessionRunContext.

(** ** [class SessionRunHook] *)

Module SessionRunHook.

Definition begin (self : loc) : M value :=
  mret VNone.

Definition before_run (self : loc) (run_context : value) : M value :=
  mret VNone.

Definition after_run (self : loc) (run_context run_values : value) : M value :=
  mret VNone.

(** [end] in the source. *)
Definition end_ (self : loc) (session : value) : M value :=
  mret VNone.

(** [SessionRunHook()] *)
Definition call : M loc :=
  alloc "SessionRunHook".

End SessionRunHook.

(** ** Programs over the module *)

(** One use of the module by a client: a construction, a method call or a
    property read. *)
Inductive action : Type :=
  | NewContext (original_args session : value)
  | OriginalArgs (self : loc)
  | Session (self : loc)
  | StopRequested (self : loc)
  | RequestStop (self : loc)
  | NewHook
  | Begin (self : loc)
  | BeforeRun (self : loc) (run_context : value)
  | AfterRun (self : loc) (run_context run_values : value)
  | End_ (self : loc) (session : value).

Definition perform (a : action) : M value :=
  match a with
  | NewContext original_args session =>
      self ← SessionRunContext.call original_args session; mret (VRef self)
  | OriginalArgs self => SessionRunContext.original_args self
  | Session self => SessionRunContext.session self
  | StopRequested self => SessionRunContext.stop_requested self
  | RequestStop self => SessionRunContext.request_stop self
  | NewHook => self ← SessionRunHook.call; mret (VRef self)
  | Begin self => SessionRunHook.begin self
  | BeforeRun self run_context => SessionRunHook.before_run self run_context
  | AfterRun self run_context run_values => SessionRunHook.after_run self run_context run_values
  | End_ self session => SessionRunHook.end_ self session
  end.

(** The heap after a sequence of actions, whatever each returned or raised. *)
Definition run (acts : list action) (h : heap) : heap :=
  foldl (λ h a, (perform a h).2) h acts.

(** The attribute [name] of the object at [l], if both exist: what a read
    of [l.name] finds. *)
Definition attr (h : heap) (l : loc) (name : string) : option value :=
  o ← h !! l; ob_dict o !! name.

(** ** Reading programs and calls *)

(** The argument a call gives to the parameter [name] at position [i]: the
    positional argument at [i], else the keyword [name], else [default]. *)
Definition argument (args : list value) (kwargs : gmap string value)
    (i : nat) (name : string) (default : value) : value :=
  match args !! i with
  | Some a => a
  | None =>
      match kwargs !! name with
      | Some v => v
      | None => default
      end
  end.

(** Whether a program calls [self.request_stop()]. *)
Definition requested (self : loc) (acts : list action) : bool :=
  existsb (λ a, match a with
                | RequestStop l => Pos.eqb l self
                | _ => false
                end) acts.

(** The actions that are a construction or a [request_stop()]; the others
    are property reads and hook callbacks. *)
Definition writes (a : action) : bool :=
  match a with
  | NewContext _ _ | RequestStop _ | NewHook => true
  | _ => false
  end.

(** No dictionary inside the value has a key twice. *)
Fixpoint keys_distinct (v : value) : bool :=
  match v with
  | VList xs | VTuple _ xs => forallb keys_distinct xs
  | VDict kvs =>
      bool_decide (NoDup kvs.*1) && forallb (λ kv, keys_distinct kv.2) kvs
  | _ => true
  end.

(** * Properties *)

(** ** Binding arguments *)

Lemma fmap_raise {A B} (f : A → B) (e : exn) : f <$> (Raise e : result A) = Raise e.
Proof. reflexivity. Qed.

(** A call only ever fails with [TypeError]. *)
Lemma bind_params_raises params args kwargs e :
  bind_params params args kwargs = Raise e → e = TypeError.
Proof.
  revert args kwargs.
  induction params as [|p params IH]; intros args kwargs; simpl.
  - destruct args; [destruct (Nat.eqb (size kwargs) 0)|]; congruence.
  - destruct args as [|a args].
    + destruct (kwargs !! p_name p).
      * destruct (bind_params params [] _) eqn:E; simpl; [congruence|].
        intros [= <-]. eauto.
      * destruct (p_default p); [|congruence].
        destruct (bind_params params [] _) eqn:E; simpl; [congruence|].
        intros [= <-]. eauto.
    + destruct (kwargs !! p_name p); [congruence|].
      destruct (bind_params params args _) eqn:E; simpl; [congruence|].
      intros [= <-]. eauto.
Qed.

(** A call that succeeds binds every parameter. *)
Lemma bind_params_length params : ∀ args kwargs bound,
  bind_params params args kwargs = Ok bound → length bound = length params.
Proof.
  induction params as [|p params IH]; intros args kwargs bound; simpl.
  - destruct args; [destruct (Nat.eqb (size kwargs) 0)|]; [|done|done].
    by intros [= <-].
  - destruct args as [|a args].
    + destruct (kwargs !! p_name p).
      * destruct (bind_params params [] _) eqn:E; simpl; [|done].
        intros [= <-]. simpl. f_equal. eauto.
      * destruct (p_default p); [|done].
        destruct (bind_params params [] _) eqn:E; simpl; [|done].
        intros [= <-]. simpl. f_equal. eauto.
    + destruct (kwargs !! p_name p); [done|].
      destruct (bind_params params args _) eqn:E; simpl; [|done].
      intros [= <-]. simpl. f_equal. eauto.
Qed.

(** A parameter without default that gets neither a positional argument nor
    a keyword fails the call. *)
Lemma bind_params_missing params : ∀ i name args kwargs,
  params !! i = Some (Param name None) →
  length args ≤ i →
  kwargs !! name = None →
  bind_params params args kwargs = Raise TypeError.
Proof.
  induction params as [|p params IH]; intros i name args kwargs Hi Hlen Hkw.
  - discriminate.
  - destruct i as [|i]; simpl in Hi.
    + injection Hi as ->. destruct args; [|simpl in Hlen; lia].
      simpl. by rewrite Hkw.
    + destruct args as [|a args]; simpl.
      * destruct (kwargs !! p_name p) eqn:E.
        -- rewrite (IH i name [] (delete (p_name p) kwargs)); [done|done|simpl; lia|].
           rewrite lookup_delete. by case_decide.
        -- destruct (p_default p); [|done].
           by rewrite (IH i name [] kwargs); [|done|simpl; lia|].
      * destruct (kwargs !! p_name p); [done|].
        by rewrite (IH i name args kwargs); [|done|simpl in Hlen; lia|].
Qed.

(** With no defaults, a call that succeeds got exactly one argument per
    parameter. *)
Lemma bind_params_arity params : ∀ args kwargs bound,
  Forall (λ p, p_default p = None) params →
  bind_params params args kwargs = Ok bound →
  length args + size kwargs = length params.
Proof.
  induction params as [|p params IH]; intros args kwargs bound Hdef; simpl.
  - destruct args; [|done]. destruct (Nat.eqb (size kwargs) 0) eqn:E; [|done].
    apply Nat.eqb_eq in E. intros _. simpl. lia.
  - apply Forall_cons in Hdef as [Hp Hdef].
    destruct args as [|a args].
    + destruct (kwargs !! p_name p) eqn:E.
      * destruct (bind_params params [] _) eqn:E'; [|done].
        intros _. apply IH in E'; [|done].
        rewrite map_size_delete, E in E'. simpl in *.
        assert (size kwargs ≠ 0); [|lia].
        intros Hz. apply map_size_empty_inv in Hz. by rewrite Hz, lookup_empty in E.
      * by rewrite Hp.
    + destruct (kwargs !! p_name p); [done|].
      destruct (bind_params params args kwargs) eqn:E'; [|done].
      intros _. apply IH in E'; [|done]. simpl. lia.
Qed.

(** ** [SessionRunArgs] and [SessionRunValues] *)

Lemma seq_eq_3 {A} (eq : A → A → bool) a1 b1 c1 a2 b2 c2 :
  seq_eq eq [a1; b1; c1] [a2; b2; c2] = eq a1 a2 && eq b1 b2 && eq c1 c2.
Proof. simpl. by rewrite andb_true_r, andb_assoc. Qed.

(** The body of [SessionRunArgs.__new__] builds the tuple of its three
    arguments, of the class it is given, when that class is
    [SessionRunArgs] or a subclass; for any other class it raises
    [TypeError]. *)
Lemma SessionRunArgs_new_tuple cls f d o :
  issubclass cls CSessionRunArgs = true →
  SessionRunArgs.__new__ cls f d o = Ok (VTuple (__name__ cls) [f; d; o]).
Proof. intros Hsub. unfold SessionRunArgs.__new__. by rewrite Hsub. Qed.

Lemma SessionRunArgs_new_other_class cls f d o :
  issubclass cls CSessionRunArgs = false →
  SessionRunArgs.__new__ cls f d o = Raise TypeError.
Proof. intros Hsub. unfold SessionRunArgs.__new__. by rewrite Hsub. Qed.

Example new_with_subclass (f d o : value) :
  SessionRunArgs.__new__
    (PyClass "MyArgs" [CUser "MyArgs"; CSessionRunArgs;
                       CNamedTupleBase "SessionRunArgs"; CTuple; CObject]) f d o
  = Ok (VTuple "MyArgs" [f; d; o]).
Proof. reflexivity. Qed.

Example new_with_tuple (f d o : value) :
  SessionRunArgs.__new__ tuple_class f d o = Raise TypeError.
Proof. reflexivity. Qed.

Example new_with_SessionRunValues (f d o : value) :
  SessionRunArgs.__new__ SessionRunValues.cls f d o = Raise TypeError.
Proof. reflexivity. Qed.

Example new_with_namedtuple_base (f d o : value) :
  SessionRunArgs.__new__
    (PyClass "SessionRunArgs" [CNamedTupleBase "SessionRunArgs"; CTuple; CObject]) f d o
  = Raise TypeError.
Proof. reflexivity. Qed.

(** A call of [SessionRunArgs] is the binding of its arguments followed by
    the tuple of what was bound: it fails only when the binding does. *)
Lemma SessionRunArgs_call_bind args kwargs :
  SessionRunArgs.call args kwargs
  = VTuple "SessionRunArgs" <$> bind_params SessionRunArgs.signature args kwargs.
Proof.
  unfold SessionRunArgs.call.
  destruct (bind_params _ args kwargs) as [bound|] eqn:E; [|done].
  apply bind_params_length in E.
  destruct bound as [|f [|d [|o [|]]]]; try done.
Qed.

Example args_fetches_only :
  SessionRunArgs.call [VStr "step"] ∅
  = Ok (VTuple "SessionRunArgs" [VStr "step"; VNone; VNone]).
Proof. reflexivity. Qed.

Example args_keywords :
  SessionRunArgs.call [VStr "step"] {[ "options" := VRef 7 ]}
  = Ok (VTuple "SessionRunArgs" [VStr "step"; VNone; VRef 7]).
Proof. reflexivity. Qed.

Example args_nested_fetches :
  SessionRunArgs.call
    [VDict [("step", VRef 1); ("ops", VList [VRef 2; VRef 3])]; VDict []] ∅
  = Ok (VTuple "SessionRunArgs"
          [VDict [("step", VRef 1); ("ops", VList [VRef 2; VRef 3])]; VDict []; VNone]).
Proof. reflexivity. Qed.

Example args_no_fetches : SessionRunArgs.call [] ∅ = Raise TypeError.
Proof. reflexivity. Qed.

Example values_two_fields :
  SessionRunValues.call [VInt 1; VNone] ∅ = Raise TypeError.
Proof. reflexivity. Qed.

Example values_by_keyword :
  SessionRunValues.call [VInt 1; VNone] {[ "run_metadata" := VRef 4 ]}
  = Ok (VTuple "SessionRunValues" [VInt 1; VNone; VRef 4]).
Proof. reflexivity. Qed.

(** C3. [SessionRunArgs(f)] has [feed_dict] and [options] equal to [None],
    and [SessionRunArgs(f, d, o)] reads back [f], [d] and [o] in [fetches],
    [feed_dict] and [options]. *)
Theorem SessionRunArgs_defaults_roundtrip :
  (∀ f : value, ∃ v,
      SessionRunArgs.call [f] ∅ = Ok v ∧
      SessionRunArgs.fetches v = Ok f ∧
      SessionRunArgs.feed_dict v = Ok VNone ∧
      SessionRunArgs.options v = Ok VNone) ∧
  (∀ f d o : value, ∃ v,
      SessionRunArgs.call [f; d; o] ∅ = Ok v ∧
      SessionRunArgs.fetches v = Ok f ∧
      SessionRunArgs.feed_dict v = Ok d ∧
      SessionRunArgs.options v = Ok o).
Proof.
  split.
  - intros f. exists (VTuple "SessionRunArgs" [f; VNone; VNone]).
    repeat split; reflexivity.
  - intros f d o. exists (VTuple "SessionRunArgs" [f; d; o]).
    repeat split; reflexivity.
Qed.

(** The same by keyword: whichever of [feed_dict] and [options] is left out
    is [None], the others read back. *)
Lemma SessionRunArgs_keywords (f d o : value) :
  SessionRunArgs.call [] {[ "fetches" := f ]}
    = Ok (VTuple "SessionRunArgs" [f; VNone; VNone]) ∧
  SessionRunArgs.call [f] {[ "feed_dict" := d ]}
    = Ok (VTuple "SessionRunArgs" [f; d; VNone]) ∧
  SessionRunArgs.call [f] {[ "options" := o ]}
    = Ok (VTuple "SessionRunArgs" [f; VNone; o]) ∧
  SessionRunArgs.call [f] (<[ "options" := o ]> {[ "feed_dict" := d ]})
    = Ok (VTuple "SessionRunArgs" [f; d; o]).
Proof. repeat split; reflexivity. Qed.

(** C4. [SessionRunValues(r, o, m)] reads back [r], [o] and [m] in
    [results], [options] and [run_metadata]; no field has a default, and a
    call that leaves a field without a positional argument and without a
    keyword raises [TypeError]. *)
Theorem SessionRunValues_mandatory_roundtrip :
  (∀ r o m : value, ∃ v,
      SessionRunValues.call [r; o; m] ∅ = Ok v ∧
      SessionRunValues.results v = Ok r ∧
      SessionRunValues.options v = Ok o ∧
      SessionRunValues.run_metadata v = Ok m) ∧
  Forall (λ p, p_default p = None) (NamedTuple.signature SessionRunValues.base) ∧
  (∀ (args : list value) (kwargs : gmap string value) (i : nat) (name : string),
      _fields SessionRunValues.base !! i = Some name →
      length args ≤ i →
      kwargs !! name = None →
      SessionRunValues.call args kwargs = Raise TypeError).
Proof.
  split; [|split].
  - intros r o m. exists (VTuple "SessionRunValues" [r; o; m]).
    repeat split; reflexivity.
  - repeat constructor.
  - intros args kwargs i name Hi Hlen Hkw.
    unfold SessionRunValues.call, NamedTuple.__new__.
    rewrite (bind_params_missing _ i name); [done| |done|done].
    unfold NamedTuple.signature. by rewrite list_lookup_fmap, Hi.
Qed.

Lemma SessionRunValues_mandatory_roundtrip_witness :
  SessionRunValues.call [VInt 1; VNone] ∅ = Raise TypeError.
Proof.
  apply (proj2 (proj2 SessionRunValues_mandatory_roundtrip)
           [VInt 1; VNone] ∅ 2 "run_metadata").
  - reflexivity.
  - simpl. lia.
  - reflexivity.
Defined.

(** X14. A call of [SessionRunValues] that succeeds was given three arguments,
    positional and keyword together. *)
Lemma SessionRunValues_arity args kwargs v :
  SessionRunValues.call args kwargs = Ok v → length args + size kwargs = 3.
Proof.
  unfold SessionRunValues.call, NamedTuple.__new__.
  destruct (bind_params _ args kwargs) as [bound|] eqn:E; [|done].
  intros _. apply bind_params_arity in E; [done|]. repeat constructor.
Qed.

(** C6. Constructing a [SessionRunArgs] never fails, whatever the values of
    [fetches], [feed_dict] and [options]: [__new__], given the class
    [SessionRunArgs], returns the tuple of the three, unexamined, and so
    does a call with one, two or three arguments. *)
Theorem SessionRunArgs_construction_total (f d o : value) :
  SessionRunArgs.__new__ SessionRunArgs.cls f d o
    = Ok (VTuple "SessionRunArgs" [f; d; o]) ∧
  SessionRunArgs.call [f] ∅ = Ok (VTuple "SessionRunArgs" [f; VNone; VNone]) ∧
  SessionRunArgs.call [f; d] ∅ = Ok (VTuple "SessionRunArgs" [f; d; VNone]) ∧
  SessionRunArgs.call [f; d; o] ∅ = Ok (VTuple "SessionRunArgs" [f; d; o]) ∧
  is_ok (SessionRunArgs.call [f] ∅) = true ∧
  is_ok (SessionRunArgs.call [f; d] ∅) = true ∧
  is_ok (SessionRunArgs.call [f; d; o] ∅) = true.
Proof. repeat split; reflexivity. Qed.

(** C9. Equality of two [SessionRunArgs] is the equality of their fields,
    one by one, and so is the equality of two [SessionRunValues]: instances
    built from equal components are equal. *)
Theorem namedtuple_eq_componentwise (x1 y1 z1 x2 y2 z2 : value) :
  (∃ a b,
      SessionRunArgs.call [x1; y1; z1] ∅ = Ok a ∧
      SessionRunArgs.call [x2; y2; z2] ∅ = Ok b ∧
      py_eq a b = py_eq x1 x2 && py_eq y1 y2 && py_eq z1 z2) ∧
  (∃ a b,
      SessionRunValues.call [x1; y1; z1] ∅ = Ok a ∧
      SessionRunValues.call [x2; y2; z2] ∅ = Ok b ∧
      py_eq a b = py_eq x1 x2 && py_eq y1 y2 && py_eq z1 z2).
Proof.
  split.
  - exists (VTuple "SessionRunArgs" [x1; y1; z1]), (VTuple "SessionRunArgs" [x2; y2; z2]).
    split; [reflexivity|]. split; [reflexivity|].
    change (seq_eq py_eq [x1; y1; z1] [x2; y2; z2] = py_eq x1 x2 && py_eq y1 y2 && py_eq z1 z2).
    apply seq_eq_3.
  - exists (VTuple "SessionRunValues" [x1; y1; z1]), (VTuple "SessionRunValues" [x2; y2; z2]).
    split; [reflexivity|]. split; [reflexivity|].
    change (seq_eq py_eq [x1; y1; z1] [x2; y2; z2] = py_eq x1 x2 && py_eq y1 y2 && py_eq z1 z2).
    apply seq_eq_3.
Qed.

Example args_equal :
  py_eq (VTuple "SessionRunArgs" [VList [VRef 1; VStr "summ"]; VDict [("x", VInt 1)]; VNone])
        (VTuple "SessionRunArgs" [VList [VRef 1; VStr "summ"]; VDict [("x", VInt 1)]; VNone])
  = true.
Proof. reflexivity. Qed.

Example args_differ_in_feed_dict :
  py_eq (VTuple "SessionRunArgs" [VRef 1; VDict [("x", VInt 1)]; VNone])
        (VTuple "SessionRunArgs" [VRef 1; VDict [("x", VInt 2)]; VNone])
  = false.
Proof. reflexivity. Qed.

(** In particular, equal components give equal instances. *)
Lemma SessionRunArgs_eq_of_components (f1 d1 o1 f2 d2 o2 : value) :
  py_eq f1 f2 = true → py_eq d1 d2 = true → py_eq o1 o2 = true →
  py_eq (VTuple "SessionRunArgs" [f1; d1; o1]) (VTuple "SessionRunArgs" [f2; d2; o2]) = true.
Proof.
  intros Hf Hd Ho.
  change (seq_eq py_eq [f1; d1; o1] [f2; d2; o2] = true).
  by rewrite seq_eq_3, Hf, Hd, Ho.
Qed.

(** ** The heap *)

Lemma getattr_heap self name h : (getattr self name h).2 = h.
Proof. unfold getattr. destruct (h !! self) as [o|]; [destruct (ob_dict o !! name)|]; done. Qed.

Lemma getattr_attr self name h v :
  attr h self name = Some v → getattr self name h = (Ok v, h).
Proof.
  unfold attr, getattr. destruct (h !! self) as [o|]; simpl; [|done].
  by intros ->.
Qed.

Lemma setattr_heap self name v h :
  (setattr self name v h).2 =
    match h !! self with
    | Some o => <[self := Object (ob_class o) (<[name := v]> (ob_dict o))]> h
    | None => h
    end.
Proof. unfold setattr. by destruct (h !! self). Qed.

Lemma setattr_ok self name v h :
  is_Some (h !! self) → (setattr self name v h).1 = Ok ().
Proof. intros [o Ho]. unfold setattr. by rewrite Ho. Qed.

(** An assignment to [self.name] is read back, ... *)
Lemma attr_setattr_eq self name v h :
  is_Some (h !! self) → attr (setattr self name v h).2 self name = Some v.
Proof.
  intros [o Ho]. rewrite setattr_heap, Ho. unfold attr.
  rewrite lookup_insert_eq. simpl. by rewrite lookup_insert_eq.
Qed.

(** ... and leaves the other attributes of [self] and all other objects as
    they were. *)
Lemma attr_setattr_ne self name v h l name' :
  l ≠ self ∨ name' ≠ name →
  attr (setattr self name v h).2 l name' = attr h l name'.
Proof.
  intros Hne. rewrite setattr_heap. destruct (h !! self) as [o|] eqn:Ho; [|done].
  unfold attr. destruct (decide (l = self)) as [->|Hl].
  - rewrite lookup_insert_eq, Ho. simpl.
    rewrite lookup_insert_ne; [done|]. intros ->. by destruct Hne.
  - by rewrite lookup_insert_ne.
Qed.

Lemma lookup_setattr_ne self name v h l :
  l ≠ self → (setattr self name v h).2 !! l = h !! l.
Proof.
  intros Hne. rewrite setattr_heap. destruct (h !! self); [|done].
  by rewrite lookup_insert_ne.
Qed.

Lemma setattr_alive self name v h l :
  is_Some (h !! l) → is_Some ((setattr self name v h).2 !! l).
Proof.
  intros Hl. rewrite setattr_heap. destruct (h !! self) as [o|] eqn:Ho; [|done].
  destruct (decide (l = self)) as [->|Hne].
  - rewrite lookup_insert_eq. eauto.
  - by rewrite lookup_insert_ne.
Qed.

Lemma setattr_class self name v h l :
  ob_class <$> (setattr self name v h).2 !! l = ob_class <$> h !! l.
Proof.
  rewrite setattr_heap. destruct (h !! self) as [o|] eqn:Ho; [|done].
  destruct (decide (l = self)) as [->|Hne].
  - by rewrite lookup_insert_eq, Ho.
  - by rewrite lookup_insert_ne.
Qed.

(** A new object is none of the objects there are. *)
Lemma alloc_fresh (h : heap) : h !! fresh (dom h) = None.
Proof. apply not_elem_of_dom, is_fresh. Qed.

Lemma alloc_spec cls h :
  alloc cls h = (Ok (fresh (dom h)), <[fresh (dom h) := Object cls ∅]> h).
Proof. reflexivity. Qed.

Lemma lookup_alloc cls h l :
  is_Some (h !! l) → (alloc cls h).2 !! l = h !! l.
Proof.
  intros [o Ho]. rewrite alloc_spec. simpl. rewrite lookup_insert_ne; [done|].
  intros <-. by rewrite alloc_fresh in Ho.
Qed.

(** ** [SessionRunContext] *)

(** What [SessionRunContext(original_args, session)] does: a new object
    with the three attributes that [__init__] assigns. *)
Lemma SessionRunContext_call_spec original_args session h :
  SessionRunContext.call original_args session h =
    (Ok (fresh (dom h)),
     <[fresh (dom h) :=
         Object "SessionRunContext"
           (<["_stop_requested" := VBool false]>
              (<["_session" := session]>
                 (<["_original_args" := original_args]> ∅)))]> h).
Proof.
  unfold SessionRunContext.call, SessionRunContext.__init__.
  unfold mbind, M_bind, mret, M_ret. rewrite alloc_spec.
  unfold setattr. rewrite !lookup_insert_eq. simpl.
  by rewrite !insert_insert_eq.
Qed.

Lemma request_stop_spec self h :
  SessionRunContext.request_stop self h =
    match h !! self with
    | Some o =>
        (Ok VNone,
         <[self := Object (ob_class o) (<["_stop_requested" := VBool true]> (ob_dict o))]> h)
    | None => (Raise NoSuchObject, h)
    end.
Proof.
  unfold SessionRunContext.request_stop, mbind, M_bind, setattr.
  by destruct (h !! self).
Qed.

Lemma request_stop_heap self h :
  (SessionRunContext.request_stop self h).2 = (setattr self "_stop_requested" (VBool true) h).2.
Proof. rewrite request_stop_spec, setattr_heap. by destruct (h !! self). Qed.

Lemma SessionRunHook_call_spec h :
  SessionRunHook.call h = (Ok (fresh (dom h)), <[fresh (dom h) := Object "SessionRunHook" ∅]> h).
Proof. reflexivity. Qed.

(** The heap after each action, in terms of [alloc], [setattr] or nothing. *)
Lemma perform_heap a h :
  (perform a h).2 =
    match a with
    | NewContext original_args session => (SessionRunContext.call original_args session h).2
    | RequestStop self => (setattr self "_stop_requested" (VBool true) h).2
    | NewHook => (alloc "SessionRunHook" h).2
    | _ => h
    end.
Proof.
  destruct a; simpl; try done; try apply getattr_heap.
  - unfold mbind, M_bind. by rewrite SessionRunContext_call_spec.
  - apply request_stop_heap.
Qed.

(** Objects are never removed. *)
Lemma perform_alive a h l :
  is_Some (h !! l) → is_Some ((perform a h).2 !! l).
Proof.
  intros Hl. rewrite perform_heap. destruct a; try done.
  - rewrite SessionRunContext_call_spec. simpl.
    rewrite lookup_insert_ne; [done|]. intros <-.
    rewrite alloc_fresh in Hl. by destruct Hl.
  - by apply setattr_alive.
  - by rewrite lookup_alloc.
Qed.

Lemma run_alive acts : ∀ h l,
  is_Some (h !! l) → is_Some (run acts h !! l).
Proof.
  induction acts as [|a acts IH]; intros h l Hl; [done|].
  apply IH. by apply perform_alive.
Qed.

(** An attribute keeps its value through every action, unless it is a
    [_stop_requested] that is not [True]. *)
Lemma perform_attr a h l name v :
  attr h l name = Some v →
  name ≠ "_stop_requested" ∨ v = VBool true →
  attr (perform a h).2 l name = Some v.
Proof.
  intros Hv Hname. rewrite perform_heap.
  assert (is_Some (h !! l)) as Hl.
  { unfold attr in Hv. destruct (h !! l); [eauto|done]. }
  destruct a; try done.
  - rewrite SessionRunContext_call_spec. simpl. unfold attr.
    rewrite lookup_insert_ne; [done|]. intros <-.
    rewrite alloc_fresh in Hl. by destruct Hl.
  - destruct (decide (l = self ∧ name = "_stop_requested")) as [[-> ->]|Hne].
    + destruct Hname as [?| ->]; [done|]. by apply attr_setattr_eq.
    + rewrite attr_setattr_ne; [done|].
      destruct (decide (l = self)) as [Heq|Hl']; [right|by left].
      intros Hn. by apply Hne.
  - unfold attr. by rewrite lookup_alloc.
Qed.

Lemma run_attr acts : ∀ h l name v,
  attr h l name = Some v →
  name ≠ "_stop_requested" ∨ v = VBool true →
  attr (run acts h) l name = Some v.
Proof.
  induction acts as [|a acts IH]; intros h l name v Hv Hname; [done|].
  apply IH; [|done]. by apply perform_attr.
Qed.

Lemma run_app acts1 acts2 h : run (acts1 ++ acts2) h = run acts2 (run acts1 h).
Proof. apply foldl_app. Qed.

(** What a read returns depends on the heap only through [attr] and on
    whether the object is there. *)
Lemma getattr_frame self name h h' :
  attr h' self name = attr h self name →
  (is_Some (h' !! self) ↔ is_Some (h !! self)) →
  (getattr self name h').1 = (getattr self name h).1.
Proof.
  unfold attr, getattr. intros Hattr Halive.
  destruct (h !! self) as [o|], (h' !! self) as [o'|]; simpl in *.
  - rewrite Hattr. by destruct (ob_dict o !! name).
  - destruct Halive as [_ Hs]. destruct Hs; [eauto|done].
  - destruct Halive as [Hs _]. destruct Hs; [eauto|done].
  - done.
Qed.

(** Every action other than [self.request_stop()] leaves the stop flag of
    [self] as it is. *)
Lemma perform_stop_flag a h self :
  is_Some (h !! self) →
  a ≠ RequestStop self →
  attr (perform a h).2 self "_stop_requested" = attr h self "_stop_requested".
Proof.
  intros Hl Ha. rewrite perform_heap. destruct a; try done.
  - rewrite SessionRunContext_call_spec. simpl. unfold attr.
    rewrite lookup_insert_ne; [done|]. intros <-.
    rewrite alloc_fresh in Hl. by destruct Hl.
  - apply attr_setattr_ne. left. congruence.
  - unfold attr. by rewrite lookup_alloc.
Qed.

Lemma run_stop_flag acts : ∀ h self,
  is_Some (h !! self) →
  RequestStop self ∉ acts →
  attr (run acts h) self "_stop_requested" = attr h self "_stop_requested".
Proof.
  induction acts as [|a acts IH]; intros h self Hl Hacts; [done|].
  apply not_elem_of_cons in Hacts as [Ha Hacts]. simpl.
  rewrite IH; [|by apply perform_alive|done].
  apply perform_stop_flag; [done|congruence].
Qed.

(** C1. The stop flag of a [SessionRunContext] is [False] once the context is
    constructed; after a call of [request_stop()], made at any later point,
    it is [True]; and whatever is done after that, further calls of
    [request_stop()] included, it is still [True]. *)
Theorem stop_flag_monotone (original_args session : value) (h : heap)
    (before after : list action) :
  ∃ self h0,
    SessionRunContext.call original_args session h = (Ok self, h0) ∧
    SessionRunContext.stop_requested self h0 = (Ok (VBool false), h0) ∧
    let h1 := run before h0 in
    let h2 := (SessionRunContext.request_stop self h1).2 in
    (SessionRunContext.request_stop self h1).1 = Ok VNone ∧
    SessionRunContext.stop_requested self h2 = (Ok (VBool true), h2) ∧
    let h3 := run after h2 in
    SessionRunContext.stop_requested self h3 = (Ok (VBool true), h3) ∧
    let h4 := (SessionRunContext.request_stop self h3).2 in
    (SessionRunContext.request_stop self h3).1 = Ok VNone ∧
    SessionRunContext.stop_requested self h4 = (Ok (VBool true), h4).
Proof.
  eexists _, _. split; [apply SessionRunContext_call_spec|].
  set (self := fresh (dom h)). set (h0 := <[self := _]> h).
  assert (is_Some (h0 !! self)) as Hself.
  { unfold h0. rewrite lookup_insert_eq. eauto. }
  split.
  { apply getattr_attr. unfold attr, h0. by rewrite lookup_insert_eq. }
  intros h1 h2.
  assert (is_Some (h1 !! self)) as Hself1 by by apply run_alive.
  assert (attr h2 self "_stop_requested" = Some (VBool true)) as Hflag.
  { unfold h2. rewrite request_stop_heap. by apply attr_setattr_eq. }
  split; [|split].
  - rewrite request_stop_spec. by destruct Hself1 as [o ->].
  - by apply getattr_attr.
  - intros h3.
    assert (attr h3 self "_stop_requested" = Some (VBool true)) as Hflag3.
    { apply run_attr; [done|by right]. }
    assert (is_Some (h3 !! self)) as Hself3.
    { unfold attr in Hflag3. destruct (h3 !! self); [eauto|done]. }
    split; [by apply getattr_attr|]. intros h4. split.
    + rewrite request_stop_spec. by destruct Hself3 as [o ->].
    + apply getattr_attr. unfold h4. rewrite request_stop_heap.
      by apply attr_setattr_eq.
Qed.

(** C2. [original_args] and [session] return the two values the context was
    constructed from, right after the construction and after anything that
    is done later. *)
Theorem accessors_return_constructor_arguments (original_args session : value)
    (h : heap) (acts : list action) :
  ∃ self h0,
    SessionRunContext.call original_args session h = (Ok self, h0) ∧
    SessionRunContext.original_args self h0 = (Ok original_args, h0) ∧
    SessionRunContext.session self h0 = (Ok session, h0) ∧
    let h1 := run acts h0 in
    SessionRunContext.original_args self h1 = (Ok original_args, h1) ∧
    SessionRunContext.session self h1 = (Ok session, h1).
Proof.
  eexists _, _. split; [apply SessionRunContext_call_spec|].
  set (self := fresh (dom h)). set (h0 := <[self := _]> h).
  assert (attr h0 self "_original_args" = Some original_args) as Hargs.
  { unfold attr, h0. by rewrite lookup_insert_eq. }
  assert (attr h0 self "_session" = Some session) as Hsession.
  { unfold attr, h0. by rewrite lookup_insert_eq. }
  split; [by apply getattr_attr|]. split; [by apply getattr_attr|].
  intros h1. split; apply getattr_attr, run_attr; (done || by left).
Qed.

(** C5. The callbacks of [SessionRunHook] itself return [None], whatever
    they are given, and leave the heap as it is; so they do for a hook made
    by [SessionRunHook()]. *)
Theorem SessionRunHook_defaults (h : heap) (run_context run_values session : value) :
  (∀ self : loc,
      SessionRunHook.begin self h = (Ok VNone, h) ∧
      SessionRunHook.before_run self run_context h = (Ok VNone, h) ∧
      SessionRunHook.after_run self run_context run_values h = (Ok VNone, h) ∧
      SessionRunHook.end_ self session h = (Ok VNone, h)) ∧
  ∃ self h0,
    SessionRunHook.call h = (Ok self, h0) ∧
    h0 !! self = Some (Object "SessionRunHook" ∅) ∧
    run [Begin self; BeforeRun self run_context;
         AfterRun self run_context run_values; End_ self session] h0 = h0.
Proof.
  split; [done|]. eexists _, _. split; [apply SessionRunHook_call_spec|].
  split; [apply lookup_insert_eq|done].
Qed.

(** The scenario of the module's documentation: a context for
    [fetches = "step"], read, stopped, read, stopped again, read. *)
Example stop_scenario :
  let h0 := (SessionRunContext.call (VTuple "SessionRunArgs" [VStr "step"; VNone; VNone]) (VRef 9) ∅).2 in
  (SessionRunContext.stop_requested 1 h0).1 = Ok (VBool false) ∧
  (SessionRunContext.stop_requested 1 (run [RequestStop 1] h0)).1 = Ok (VBool true) ∧
  (SessionRunContext.stop_requested 1 (run [RequestStop 1; RequestStop 1] h0)).1 = Ok (VBool true).
Proof. vm_compute. done. Qed.

(** C7. [request_stop()] on a context returns [None] and assigns only the
    [_stop_requested] attribute of that context: [original_args] and
    [session] read as before, and so does every other attribute of every
    object; no object changes class. *)
Theorem request_stop_frame (h : heap) (self : loc) :
  is_Some (h !! self) →
  let h' := (SessionRunContext.request_stop self h).2 in
  (SessionRunContext.request_stop self h).1 = Ok VNone ∧
  (SessionRunContext.original_args self h').1 = (SessionRunContext.original_args self h).1 ∧
  (SessionRunContext.session self h').1 = (SessionRunContext.session self h).1 ∧
  (∀ l name, l ≠ self ∨ name ≠ "_stop_requested" → attr h' l name = attr h l name) ∧
  (∀ l, ob_class <$> h' !! l = ob_class <$> h !! l).
Proof.
  intros Hself h'. unfold h'. rewrite request_stop_heap.
  assert (is_Some ((setattr self "_stop_requested" (VBool true) h).2 !! self)
          ↔ is_Some (h !! self)) as Halive.
  { split; [done|]. apply setattr_alive. }
  repeat split.
  - rewrite request_stop_spec. by destruct Hself as [o ->].
  - apply getattr_frame; [|done]. apply attr_setattr_ne. by right.
  - apply getattr_frame; [|done]. apply attr_setattr_ne. by right.
  - intros l name Hne. by apply attr_setattr_ne.
  - intros l. apply setattr_class.
Qed.

Lemma request_stop_frame_witness :
  let h := (SessionRunContext.call (VStr "step") (VRef 9) ∅).2 in
  is_Some (h !! 1%positive) ∧
  (SessionRunContext.request_stop 1 h).1 = Ok VNone ∧
  (SessionRunContext.original_args 1 (SessionRunContext.request_stop 1 h).2).1
    = (SessionRunContext.original_args 1 h).1.
Proof.
  intros h.
  assert (is_Some (h !! 1%positive)) as Hself by (vm_compute; eauto).
  split; [exact Hself|].
  pose proof (request_stop_frame h 1%positive Hself) as (Hret & Hargs & _).
  split; [exact Hret|exact Hargs].
Defined.

(** C8. The stop flag belongs to one context.  [A.request_stop()] leaves
    every other object [B] as it is, and so [B.stop_requested]; two
    contexts constructed one after the other are different objects, and
    stopping the first leaves the second not stopped. *)
Theorem stop_flag_per_context :
  (∀ (h : heap) (A B : loc),
      A ≠ B →
      (SessionRunContext.request_stop A h).2 !! B = h !! B ∧
      (SessionRunContext.stop_requested B (SessionRunContext.request_stop A h).2).1
        = (SessionRunContext.stop_requested B h).1) ∧
  (∀ (h : heap) (a s a' s' : value), ∃ A B h1 h2,
      SessionRunContext.call a s h = (Ok A, h1) ∧
      SessionRunContext.call a' s' h1 = (Ok B, h2) ∧
      A ≠ B ∧
      let h3 := (SessionRunContext.request_stop A h2).2 in
      (SessionRunContext.stop_requested A h3).1 = Ok (VBool true) ∧
      (SessionRunContext.stop_requested B h3).1 = Ok (VBool false)).
Proof.
  assert (∀ (h : heap) (A B : loc), A ≠ B →
            (SessionRunContext.request_stop A h).2 !! B = h !! B) as Hother.
  { intros h A B Hne. rewrite request_stop_heap. by apply lookup_setattr_ne. }
  split.
  - intros h A B Hne. split; [by apply Hother|].
    apply getattr_frame; [unfold attr|]; by rewrite Hother.
  - intros h a s a' s'. eexists _, _, _, _.
    split; [apply SessionRunContext_call_spec|].
    split; [apply SessionRunContext_call_spec|].
    set (A := fresh (dom h)). set (h1 := <[A := _]> h).
    set (B := fresh (dom h1)). set (h2 := <[B := _]> h1).
    assert (A ≠ B) as Hne.
    { intros Heq. pose proof (alloc_fresh h1) as Hfresh. fold B in Hfresh.
      rewrite <- Heq in Hfresh. unfold h1 in Hfresh.
      by rewrite lookup_insert_eq in Hfresh. }
    assert (is_Some (h2 !! A)) as HA.
    { unfold h2, h1. rewrite lookup_insert_ne, lookup_insert_eq; eauto. }
    split; [done|]. intros h3. split.
    + unfold h3, SessionRunContext.stop_requested. rewrite request_stop_heap.
      erewrite getattr_attr; [done|]. by apply attr_setattr_eq.
    + unfold SessionRunContext.stop_requested.
      erewrite getattr_attr; [done|]. unfold attr, h3.
      rewrite Hother; [|done]. unfold h2. by rewrite lookup_insert_eq.
Qed.

Lemma stop_flag_per_context_witness :
  let h := run [NewContext VNone VNone; NewContext VNone VNone] ∅ in
  (SessionRunContext.stop_requested 2 (SessionRunContext.request_stop 1 h).2).1
    = (SessionRunContext.stop_requested 2 h).1.
Proof.
  intros h.
  apply (proj1 stop_flag_per_context h 1%positive 2%positive).
  discriminate.
Defined.

(** C10. Reading [stop_requested] leaves the heap as it is, so a second
    read returns what the first returned; and the reads of a context agree
    across any actions that are not a [request_stop()] of it. *)
Theorem stop_requested_pure :
  (∀ (self : loc) (h : heap),
      (SessionRunContext.stop_requested self h).2 = h ∧
      SessionRunContext.stop_requested self (SessionRunContext.stop_requested self h).2
        = SessionRunContext.stop_requested self h) ∧
  (∀ (self : loc) (h : heap) (acts : list action),
      is_Some (h !! self) →
      RequestStop self ∉ acts →
      (SessionRunContext.stop_requested self (run acts h)).1
        = (SessionRunContext.stop_requested self h).1).
Proof.
  split.
  - intros self h. unfold SessionRunContext.stop_requested.
    by rewrite getattr_heap.
  - intros self h acts Hself Hacts. apply getattr_frame.
    + by apply run_stop_flag.
    + split; [done|]. intros _. by apply run_alive.
Qed.

Lemma stop_requested_pure_witness :
  let h := run [NewContext VNone VNone; NewContext VNone VNone] ∅ in
  let acts := [StopRequested 1; RequestStop 2; NewHook; StopRequested 1] in
  (SessionRunContext.stop_requested 1 (run acts h)).1
    = (SessionRunContext.stop_requested 1 h).1.
Proof.
  intros h acts.
  apply (proj2 stop_requested_pure 1%positive h acts).
  - vm_compute. eauto.
  - unfold acts. rewrite !not_elem_of_cons. repeat split; try discriminate.
    apply not_elem_of_nil.
Defined.

(** * Further properties *)

(** ** Calls that fail *)

Lemma bind_params_unknown_keyword params : ∀ args kwargs k,
  is_Some (kwargs !! k) →
  k ∉ p_name <$> params →
  bind_params params args kwargs = Raise TypeError.
Proof.
  induction params as [|p params IH]; intros args kwargs k Hk Hnot; simpl.
  - destruct args; [|done].
    destruct (Nat.eqb (size kwargs) 0) eqn:E; [|done].
    apply Nat.eqb_eq, map_size_empty_inv in E. subst kwargs.
    rewrite lookup_empty in Hk. by destruct Hk.
  - rewrite fmap_cons in Hnot. apply not_elem_of_cons in Hnot as [Hne Hnot].
    destruct args as [|a args].
    + destruct (kwargs !! p_name p).
      * rewrite (IH [] _ k); [done| |done]. by rewrite lookup_delete_ne.
      * destruct (p_default p); [|done]. by rewrite (IH [] _ k).
    + destruct (kwargs !! p_name p); [done|]. by rewrite (IH args _ k).
Qed.

Lemma bind_params_too_many params : ∀ args kwargs,
  length params < length args →
  bind_params params args kwargs = Raise TypeError.
Proof.
  induction params as [|p params IH]; intros args kwargs Hlen; simpl.
  - destruct args; [simpl in Hlen; lia|done].
  - destruct args as [|a args]; [simpl in Hlen; lia|].
    destruct (kwargs !! p_name p); [done|].
    rewrite IH; [done|]. simpl in Hlen. lia.
Qed.

Lemma bind_params_duplicate params : ∀ i p args kwargs,
  params !! i = Some p →
  i < length args →
  is_Some (kwargs !! p_name p) →
  bind_params params args kwargs = Raise TypeError.
Proof.
  induction params as [|p0 params IH]; intros i p args kwargs Hi Hlen Hkw; [done|].
  destruct args as [|a args]; [simpl in Hlen; lia|]. simpl.
  destruct i as [|i]; simpl in Hi.
  - injection Hi as ->. by destruct Hkw as [v ->].
  - destruct (kwargs !! p_name p0); [done|].
    rewrite (IH i p); [done|done| |done]. simpl in Hlen. lia.
Qed.


(** Every parameter is bound to the argument the call gives it, when no two
    parameters have the same name. *)
Lemma bind_params_lookup params : ∀ args kwargs bound i p,
  NoDup (p_name <$> params) →
  bind_params params args kwargs = Ok bound →
  params !! i = Some p →
  bound !! i = Some (argument args kwargs i (p_name p) (default VNone (p_default p))).
Proof.
  induction params as [|p0 params IH]; intros args kwargs bound i p Hnd Hb Hi; [done|].
  rewrite fmap_cons in Hnd. apply NoDup_cons in Hnd as [Hp0 Hnd].
  simpl in Hb. unfold argument.
  destruct i as [|i]; simpl in Hi.
  - injection Hi as ->. destruct args as [|a args]; simpl.
    + destruct (kwargs !! p_name p).
      * destruct (bind_params params [] _); [|done]. by injection Hb as <-.
      * destruct (p_default p); [|done].
        destruct (bind_params params [] _); [|done]. by injection Hb as <-.
    + destruct (kwargs !! p_name p); [done|].
      destruct (bind_params params args _); [|done]. by injection Hb as <-.
  - assert (p_name p ≠ p_name p0) as Hne.
    { intros Heq. apply Hp0. rewrite <- Heq.
      apply list_elem_of_fmap. exists p. split; [done|].
      by apply list_elem_of_lookup_2 in Hi. }
    destruct args as [|a args]; simpl.
    + destruct (kwargs !! p_name p0) eqn:E.
      * destruct (bind_params params [] _) as [bound'|] eqn:E'; [|done].
        injection Hb as <-. simpl.
        rewrite (IH _ _ _ _ _ Hnd E' Hi). unfold argument.
        by rewrite lookup_nil, lookup_delete_ne.
      * destruct (p_default p0); [|done].
        destruct (bind_params params [] _) as [bound'|] eqn:E'; [|done].
        injection Hb as <-. simpl.
        rewrite (IH _ _ _ _ _ Hnd E' Hi). unfold argument.
        by rewrite lookup_nil.
    + destruct (kwargs !! p_name p0); [done|].
      destruct (bind_params params args _) as [bound'|] eqn:E'; [|done].
      injection Hb as <-. simpl.
      by rewrite (IH _ _ _ _ _ Hnd E' Hi).
Qed.

(** When a call succeeds: no more positional arguments than parameters, no
    parameter given both ways, every parameter without default given, and
    no keyword that names no parameter. *)
Lemma bind_params_ok params : ∀ args kwargs,
  NoDup (p_name <$> params) →
  length args ≤ length params →
  (∀ i p, params !! i = Some p → i < length args → kwargs !! p_name p = None) →
  (∀ i p, params !! i = Some p → length args ≤ i → p_default p = None →
          is_Some (kwargs !! p_name p)) →
  (∀ k, is_Some (kwargs !! k) → k ∈ p_name <$> params) →
  ∃ bound, bind_params params args kwargs = Ok bound.
Proof.
  induction params as [|p0 params IH]; intros args kwargs Hnd Hlen Hpos Hreq Hkw.
  - destruct args; [|simpl in Hlen; lia]. simpl.
    assert (kwargs = ∅) as ->.
    { apply map_empty. intros k. destruct (kwargs !! k) eqn:E; [|done].
      assert (k ∈ p_name <$> []) as Hk by (apply Hkw; eauto).
      by apply elem_of_nil in Hk. }
    rewrite map_size_empty. eauto.
  - rewrite fmap_cons in Hnd. apply NoDup_cons in Hnd as [Hp0 Hnd].
    assert (∀ i p, params !! i = Some p → p_name p ≠ p_name p0) as Hne.
    { intros i p Hi Heq. apply Hp0. rewrite <- Heq.
      apply list_elem_of_fmap. exists p. split; [done|].
      by apply list_elem_of_lookup_2 in Hi. }
    destruct args as [|a args]; simpl.
    + destruct (kwargs !! p_name p0) eqn:E.
      * destruct (IH [] (delete (p_name p0) kwargs)) as [bound ->]; try done.
        -- simpl. lia.
        -- intros i p _ Hi. simpl in Hi. lia.
        -- intros i p Hi _ Hd. rewrite lookup_delete_ne; [|by eapply not_eq_sym, Hne].
           apply (Hreq (S i) p); [done|simpl; lia|done].
        -- intros k Hk. rewrite lookup_delete in Hk. case_decide; [by destruct Hk|].
           apply Hkw in Hk. rewrite fmap_cons in Hk.
           apply elem_of_cons in Hk as [->|Hk]; done.
        -- simpl. eauto.
      * destruct (p_default p0) eqn:Hd.
        2:{ destruct (Hreq 0 p0) as [? Hsome]; [done|simpl; lia|done|congruence]. }
        destruct (IH [] kwargs) as [bound ->]; try done.
        -- simpl. lia.
        -- intros i p _ Hi. simpl in Hi. lia.
        -- intros i p Hi _ Hd'. apply (Hreq (S i) p); [done|simpl; lia|done].
        -- intros k Hk. pose proof (Hkw k Hk) as Hin. rewrite fmap_cons in Hin.
           apply elem_of_cons in Hin as [->|Hin]; [|done].
           rewrite E in Hk. by destruct Hk.
        -- simpl. eauto.
    + rewrite (Hpos 0 p0); [|done|simpl; lia].
      destruct (IH args kwargs) as [bound ->]; try done.
      * simpl in Hlen. lia.
      * intros i p Hi Hlt. apply (Hpos (S i) p); [done|simpl; lia].
      * intros i p Hi Hge Hd. apply (Hreq (S i) p); [done|simpl; lia|done].
      * intros k Hk. pose proof (Hkw k Hk) as Hin. rewrite fmap_cons in Hin.
        apply elem_of_cons in Hin as [->|Hin]; [|done].
        rewrite (Hpos 0 p0) in Hk; [by destruct Hk|done|simpl; lia].
      * simpl. eauto.
Qed.

Lemma bind_params_ok_iff params args kwargs :
  NoDup (p_name <$> params) →
  is_ok (bind_params params args kwargs) = true ↔
    length args ≤ length params ∧
    (∀ i p, params !! i = Some p → i < length args → kwargs !! p_name p = None) ∧
    (∀ i p, params !! i = Some p → length args ≤ i → p_default p = None →
            is_Some (kwargs !! p_name p)) ∧
    (∀ k, is_Some (kwargs !! k) → k ∈ p_name <$> params).
Proof.
  intros Hnd. split.
  - intros Hok. repeat split.
    + destruct (decide (length args ≤ length params)) as [|Hgt]; [done|].
      rewrite bind_params_too_many in Hok; [done|lia].
    + intros i p Hi Hlt. destruct (kwargs !! p_name p) eqn:E; [|done].
      rewrite (bind_params_duplicate _ i p) in Hok; [done|done|done|].
      rewrite E. eauto.
    + intros i p Hi Hge Hd. destruct (kwargs !! p_name p) eqn:E; [eauto|].
      rewrite (bind_params_missing _ i (p_name p)) in Hok; [done| |done|done].
      rewrite Hi. destruct p. simpl in Hd. by rewrite Hd.
    + intros k Hk. destruct (decide (k ∈ p_name <$> params)) as [|Hnot]; [done|].
      by rewrite (bind_params_unknown_keyword _ _ _ k) in Hok.
  - intros (Hlen & Hpos & Hreq & Hkw).
    by destruct (bind_params_ok params args kwargs) as [bound ->].
Qed.

(** ** Calls of the two namedtuples, in general *)

Lemma is_ok_fmap {A B} (f : A → B) (r : result A) : is_ok (f <$> r) = is_ok r.
Proof. by destruct r. Qed.

Lemma SessionRunArgs_names :
  p_name <$> SessionRunArgs.signature = _fields SessionRunArgs.base.
Proof. reflexivity. Qed.

Lemma SessionRunArgs_NoDup : NoDup (p_name <$> SessionRunArgs.signature).
Proof. apply (bool_decide_unpack _). by vm_compute. Qed.

Lemma SessionRunValues_NoDup :
  NoDup (p_name <$> NamedTuple.signature SessionRunValues.base).
Proof. apply (bool_decide_unpack _). by vm_compute. Qed.

Lemma SessionRunValues_call_bind args kwargs :
  SessionRunValues.call args kwargs
  = VTuple "SessionRunValues"
      <$> bind_params (NamedTuple.signature SessionRunValues.base) args kwargs.
Proof.
  unfold SessionRunValues.call, NamedTuple.__new__.
  by destruct (bind_params _ args kwargs).
Qed.

(** X7. [SessionRunArgs(...)] succeeds exactly when it is given at most three
    positional arguments, no field both by position and by keyword,
    [fetches] one way or the other, and no keyword other than the three
    field names. *)
Theorem SessionRunArgs_call_succeeds_iff (args : list value) (kwargs : gmap string value) :
  is_ok (SessionRunArgs.call args kwargs) = true ↔
    length args ≤ 3 ∧
    (∀ i name, _fields SessionRunArgs.base !! i = Some name →
               i < length args → kwargs !! name = None) ∧
    (args = [] → is_Some (kwargs !! "fetches")) ∧
    (∀ k, is_Some (kwargs !! k) → k ∈ _fields SessionRunArgs.base).
Proof.
  rewrite SessionRunArgs_call_bind, is_ok_fmap.
  rewrite (bind_params_ok_iff _ _ _ SessionRunArgs_NoDup), SessionRunArgs_names.
  split; intros (Hlen & Hpos & Hreq & Hkw); (split; [done|split; [|split; [|done]]]).
  - intros i name Hi Hlt.
    destruct i as [|[|[|i]]]; simpl in Hi; [| | |done]; injection Hi as <-.
    + by apply (Hpos 0 (Param "fetches" None)).
    + by apply (Hpos 1 (Param "feed_dict" (Some VNone))).
    + by apply (Hpos 2 (Param "options" (Some VNone))).
  - intros ->. by apply (Hreq 0 (Param "fetches" None)).
  - intros i p Hi Hlt. apply (Hpos i); [|done].
    by destruct i as [|[|[|i]]]; simpl in Hi; [| | |done]; injection Hi as <-.
  - intros i p Hi Hge Hd.
    destruct i as [|[|[|i]]]; simpl in Hi; [| | |done]; injection Hi as <-; [|done|done].
    apply Hreq. destruct args; [done|simpl in Hge; lia].
Qed.

Lemma SessionRunArgs_call_succeeds_iff_witness :
  is_ok (SessionRunArgs.call [VStr "step"] {[ "options" := VRef 7 ]}) = true ∧
  length [VStr "step"] ≤ 3.
Proof.
  split; [reflexivity|].
  apply (proj1 (SessionRunArgs_call_succeeds_iff [VStr "step"] {[ "options" := VRef 7 ]})).
  reflexivity.
Defined.

(** X8. [SessionRunValues(...)] succeeds exactly when it is given at most three
    positional arguments, every field beyond them by keyword and none of
    the others, and no keyword other than the three field names. *)
Theorem SessionRunValues_call_succeeds_iff (args : list value) (kwargs : gmap string value) :
  is_ok (SessionRunValues.call args kwargs) = true ↔
    length args ≤ 3 ∧
    (∀ i name, _fields SessionRunValues.base !! i = Some name →
               i < length args → kwargs !! name = None) ∧
    (∀ i name, _fields SessionRunValues.base !! i = Some name →
               length args ≤ i → is_Some (kwargs !! name)) ∧
    (∀ k, is_Some (kwargs !! k) → k ∈ _fields SessionRunValues.base).
Proof.
  rewrite SessionRunValues_call_bind, is_ok_fmap.
  rewrite (bind_params_ok_iff _ _ _ SessionRunValues_NoDup).
  split; intros (Hlen & Hpos & Hreq & Hkw); (split; [done|split; [|split; [|done]]]).
  - intros i name Hi Hlt.
    destruct i as [|[|[|i]]]; simpl in Hi; [| | |done]; injection Hi as <-.
    + by apply (Hpos 0 (Param "results" None)).
    + by apply (Hpos 1 (Param "options" None)).
    + by apply (Hpos 2 (Param "run_metadata" None)).
  - intros i name Hi Hge.
    destruct i as [|[|[|i]]]; simpl in Hi; [| | |done]; injection Hi as <-.
    + by apply (Hreq 0 (Param "results" None)).
    + by apply (Hreq 1 (Param "options" None)).
    + by apply (Hreq 2 (Param "run_metadata" None)).
  - intros i p Hi Hlt. apply (Hpos i); [|done].
    by destruct i as [|[|[|i]]]; simpl in Hi; [| | |done]; injection Hi as <-.
  - intros i p Hi Hge Hd. apply (Hreq i); [|done].
    by destruct i as [|[|[|i]]]; simpl in Hi; [| | |done]; injection Hi as <-.
Qed.

Lemma SessionRunValues_call_succeeds_iff_witness :
  is_ok (SessionRunValues.call [VInt 1; VNone] {[ "run_metadata" := VRef 4 ]}) = true ∧
  length [VInt 1; VNone] ≤ 3.
Proof.
  split; [reflexivity|].
  apply (proj1 (SessionRunValues_call_succeeds_iff
                  [VInt 1; VNone] {[ "run_metadata" := VRef 4 ]})).
  reflexivity.
Defined.

(** X9. Neither constructor raises anything but [TypeError]. *)
Theorem constructors_raise_only_TypeError (args : list value)
    (kwargs : gmap string value) (e : exn) :
  (SessionRunArgs.call args kwargs = Raise e → e = TypeError) ∧
  (SessionRunValues.call args kwargs = Raise e → e = TypeError).
Proof.
  split.
  - rewrite SessionRunArgs_call_bind.
    destruct (bind_params _ args kwargs) eqn:E; [done|].
    intros [= <-]. by apply bind_params_raises in E.
  - unfold SessionRunValues.call, NamedTuple.__new__.
    destruct (bind_params _ args kwargs) eqn:E; [done|].
    intros [= <-]. by apply bind_params_raises in E.
Qed.

Lemma constructors_raise_only_TypeError_witness :
  SessionRunArgs.call [] ∅ = Raise TypeError ∧ TypeError = TypeError.
Proof.
  split; [reflexivity|].
  apply (proj1 (constructors_raise_only_TypeError [] ∅ TypeError)).
  reflexivity.
Defined.

(** X10. Whatever way a [SessionRunArgs] was constructed, each field reads back
    the argument given for it, by position or by keyword, and [feed_dict]
    and [options] read [None] when no argument was given for them. *)
Theorem SessionRunArgs_fields_read_arguments (args : list value)
    (kwargs : gmap string value) (v : value) :
  SessionRunArgs.call args kwargs = Ok v →
  SessionRunArgs.fetches v = Ok (argument args kwargs 0 "fetches" VNone) ∧
  SessionRunArgs.feed_dict v = Ok (argument args kwargs 1 "feed_dict" VNone) ∧
  SessionRunArgs.options v = Ok (argument args kwargs 2 "options" VNone).
Proof.
  rewrite SessionRunArgs_call_bind.
  destruct (bind_params _ args kwargs) as [bound|] eqn:E; [|done].
  intros [= <-].
  pose proof (bind_params_lookup _ _ _ _ 0 _ SessionRunArgs_NoDup E eq_refl) as H0.
  pose proof (bind_params_lookup _ _ _ _ 1 _ SessionRunArgs_NoDup E eq_refl) as H1.
  pose proof (bind_params_lookup _ _ _ _ 2 _ SessionRunArgs_NoDup E eq_refl) as H2.
  simpl in H0, H1, H2.
  unfold SessionRunArgs.fetches, SessionRunArgs.feed_dict, SessionRunArgs.options.
  unfold NamedTuple.getfield. simpl. by rewrite H0, H1, H2.
Qed.

Lemma SessionRunArgs_fields_read_arguments_witness :
  SessionRunArgs.options (VTuple "SessionRunArgs" [VStr "step"; VNone; VRef 7]) = Ok (VRef 7).
Proof.
  assert (SessionRunArgs.call [VStr "step"] {[ "options" := VRef 7 ]}
          = Ok (VTuple "SessionRunArgs" [VStr "step"; VNone; VRef 7])) as Hcall
    by reflexivity.
  destruct (SessionRunArgs_fields_read_arguments _ _ _ Hcall) as (_ & _ & Hoptions).
  exact Hoptions.
Defined.

(** X11. Whatever way a [SessionRunValues] was constructed, each field reads
    back the argument given for it, by position or by keyword. *)
Theorem SessionRunValues_fields_read_arguments (args : list value)
    (kwargs : gmap string value) (v : value) :
  SessionRunValues.call args kwargs = Ok v →
  SessionRunValues.results v = Ok (argument args kwargs 0 "results" VNone) ∧
  SessionRunValues.options v = Ok (argument args kwargs 1 "options" VNone) ∧
  SessionRunValues.run_metadata v = Ok (argument args kwargs 2 "run_metadata" VNone).
Proof.
  unfold SessionRunValues.call, NamedTuple.__new__.
  destruct (bind_params _ args kwargs) as [bound|] eqn:E; [|done].
  intros [= <-].
  pose proof (bind_params_lookup _ _ _ _ 0 _ SessionRunValues_NoDup E eq_refl) as H0.
  pose proof (bind_params_lookup _ _ _ _ 1 _ SessionRunValues_NoDup E eq_refl) as H1.
  pose proof (bind_params_lookup _ _ _ _ 2 _ SessionRunValues_NoDup E eq_refl) as H2.
  simpl in H0, H1, H2.
  unfold SessionRunValues.results, SessionRunValues.options, SessionRunValues.run_metadata.
  unfold NamedTuple.getfield. simpl. by rewrite H0, H1, H2.
Qed.

Lemma SessionRunValues_fields_read_arguments_witness :
  SessionRunValues.run_metadata (VTuple "SessionRunValues" [VInt 1; VNone; VRef 4]) = Ok (VRef 4).
Proof.
  assert (SessionRunValues.call [VInt 1; VNone] {[ "run_metadata" := VRef 4 ]}
          = Ok (VTuple "SessionRunValues" [VInt 1; VNone; VRef 4])) as Hcall
    by reflexivity.
  destruct (SessionRunValues_fields_read_arguments _ _ _ Hcall) as (_ & _ & Hmeta).
  exact Hmeta.
Defined.

(** X12. [SessionRunArgs(f, ...)] with keywords among [feed_dict] and [options]
    always succeeds, and each of the two fields is its keyword if given and
    [None] if not. *)
Theorem SessionRunArgs_keyword_defaults (f : value) (kwargs : gmap string value) :
  (∀ k, is_Some (kwargs !! k) → k = "feed_dict" ∨ k = "options") →
  SessionRunArgs.call [f] kwargs
  = Ok (VTuple "SessionRunArgs"
          [f; default VNone (kwargs !! "feed_dict"); default VNone (kwargs !! "options")]).
Proof.
  intros Hkw. rewrite SessionRunArgs_call_bind.
  destruct (bind_params_ok SessionRunArgs.signature [f] kwargs) as [bound E].
  - apply SessionRunArgs_NoDup.
  - simpl. lia.
  - intros i p Hi Hlt. simpl in Hlt.
    destruct i as [|i]; [|lia]. injection Hi as <-. simpl.
    destruct (kwargs !! "fetches") eqn:Hf; [|done].
    by destruct (Hkw "fetches") as [?|?]; [eauto| |].
  - intros i p Hi Hge Hd.
    by destruct i as [|[|[|i]]]; simpl in Hi, Hge; [lia| | |]; try injection Hi as <-.
  - intros k Hk. rewrite SessionRunArgs_names. simpl.
    destruct (Hkw k Hk) as [-> | ->]; set_solver.
  - rewrite E. simpl.
    pose proof (bind_params_length _ _ _ _ E) as Hlen.
    pose proof (bind_params_lookup _ _ _ _ 0 _ SessionRunArgs_NoDup E eq_refl) as H0.
    pose proof (bind_params_lookup _ _ _ _ 1 _ SessionRunArgs_NoDup E eq_refl) as H1.
    pose proof (bind_params_lookup _ _ _ _ 2 _ SessionRunArgs_NoDup E eq_refl) as H2.
    destruct bound as [|x [|y [|z [|]]]]; try done.
    simpl in H0, H1, H2. injection H0 as ->. injection H1 as ->. injection H2 as ->.
    unfold argument. simpl.
    by destruct (kwargs !! "feed_dict"), (kwargs !! "options").
Qed.

Lemma SessionRunArgs_keyword_defaults_witness :
  SessionRunArgs.call [VStr "step"] {[ "options" := VRef 7 ]}
  = Ok (VTuple "SessionRunArgs" [VStr "step"; VNone; VRef 7]).
Proof.
  refine (SessionRunArgs_keyword_defaults (VStr "step") {[ "options" := VRef 7 ]} _).
  intros k [v Hk]. right.
  apply lookup_singleton_Some in Hk as [<- _]. reflexivity.
Defined.



Lemma SessionRunValues_arity_witness :
  length [VInt 1; VNone] + size ({[ "run_metadata" := VRef 4 ]} : gmap string value) = 3.
Proof.
  apply (SessionRunValues_arity [VInt 1; VNone] {[ "run_metadata" := VRef 4 ]}
           (VTuple "SessionRunValues" [VInt 1; VNone; VRef 4])).
  reflexivity.
Defined.

(** ** The stop flag, exactly *)

Lemma attr_alive h l name v : attr h l name = Some v → is_Some (h !! l).
Proof. unfold attr. destruct (h !! l); [eauto|done]. Qed.

(** Through a program, a flag that is a boolean becomes or stays [True] if
    the program requests a stop on that object, and is unchanged if not. *)
Lemma run_flag acts : ∀ h self b,
  attr h self "_stop_requested" = Some (VBool b) →
  attr (run acts h) self "_stop_requested" = Some (VBool (b || requested self acts)).
Proof.
  induction acts as [|a acts IH]; intros h self b Hb.
  - simpl. by rewrite orb_false_r.
  - pose proof (attr_alive _ _ _ _ Hb) as Hself.
    change (run (a :: acts) h) with (run acts (perform a h).2).
    destruct a as [| | | |l| | | | |];
      try (rewrite (IH _ _ b); [done|]; by rewrite perform_stop_flag).
    change (requested self (RequestStop l :: acts))
      with (Pos.eqb l self || requested self acts).
    destruct (Pos.eqb_spec l self) as [->|Hne].
    + rewrite (IH _ _ true); [by rewrite orb_true_r|].
      rewrite perform_heap. by apply attr_setattr_eq.
    + rewrite (IH _ _ b); [done|].
      rewrite perform_stop_flag; [done|done|congruence].
Qed.

(** X1. After any program, the stop flag of a context reads [True] exactly when
    the program called [request_stop()] on that context: nothing else sets
    it, and nothing clears it. *)
Theorem stop_flag_iff_requested (original_args session : value) (h : heap)
    (acts : list action) :
  ∃ self h0,
    SessionRunContext.call original_args session h = (Ok self, h0) ∧
    let h1 := run acts h0 in
    SessionRunContext.stop_requested self h1 = (Ok (VBool (requested self acts)), h1).
Proof.
  eexists _, _. split; [apply SessionRunContext_call_spec|].
  intros h1. apply getattr_attr.
  change (requested (fresh (dom h)) acts) with (false || requested (fresh (dom h)) acts).
  apply run_flag. unfold attr. by rewrite lookup_insert_eq.
Qed.

(** X2. Constructing a context adds one object, at a location that named none,
    and leaves every object there was as it is. *)
Theorem new_context_is_new (original_args session : value) (h : heap) :
  ∃ self h0,
    SessionRunContext.call original_args session h = (Ok self, h0) ∧
    h !! self = None ∧
    ob_class <$> h0 !! self = Some "SessionRunContext" ∧
    dom h0 = {[self]} ∪ dom h ∧
    ∀ l, l ≠ self → h0 !! l = h !! l.
Proof.
  eexists _, _. split; [apply SessionRunContext_call_spec|].
  split; [apply alloc_fresh|]. split; [by rewrite lookup_insert_eq|].
  split; [apply dom_insert_L|].
  intros l Hne. by rewrite lookup_insert_ne.
Qed.

Lemma SessionRunContext_init_spec self original_args session h cls dict :
  h !! self = Some (Object cls dict) →
  SessionRunContext.__init__ self original_args session h =
    (Ok VNone,
     <[self :=
         Object cls
           (<["_stop_requested" := VBool false]>
              (<["_session" := session]>
                 (<["_original_args" := original_args]> dict)))]> h).
Proof.
  intros Hself. unfold SessionRunContext.__init__.
  unfold mbind, M_bind, mret, M_ret, setattr.
  rewrite Hself. simpl. rewrite !lookup_insert_eq. simpl.
  by rewrite !insert_insert_eq.
Qed.

(** X3. [__init__] on an object there is assigns its three attributes whatever
    they were: afterwards the accessors return the two arguments and the
    stop flag reads [False].  It returns [None], and leaves the other
    attributes of the object and all other objects as they are. *)
Theorem init_assigns_three_attributes (h : heap) (self : loc)
    (original_args session : value) :
  is_Some (h !! self) →
  let h' := (SessionRunContext.__init__ self original_args session h).2 in
  (SessionRunContext.__init__ self original_args session h).1 = Ok VNone ∧
  SessionRunContext.original_args self h' = (Ok original_args, h') ∧
  SessionRunContext.session self h' = (Ok session, h') ∧
  SessionRunContext.stop_requested self h' = (Ok (VBool false), h') ∧
  (∀ name, name ∉ ["_original_args"; "_session"; "_stop_requested"] →
           attr h' self name = attr h self name) ∧
  (∀ l, l ≠ self → h' !! l = h !! l).
Proof.
  intros [[cls dict] Hself] h'. unfold h'.
  rewrite (SessionRunContext_init_spec _ _ _ _ _ _ Hself). simpl.
  split; [done|].
  split; [apply getattr_attr; unfold attr; by simplify_map_eq|].
  split; [apply getattr_attr; unfold attr; by simplify_map_eq|].
  split; [apply getattr_attr; unfold attr; by simplify_map_eq|].
  split.
  - intros name Hname. unfold attr. rewrite lookup_insert_eq, Hself. simpl.
    rewrite !not_elem_of_cons in Hname. destruct Hname as (? & ? & ? & _).
    by rewrite !lookup_insert_ne.
  - intros l Hne. by rewrite lookup_insert_ne.
Qed.

Lemma init_assigns_three_attributes_witness :
  let h := run [NewContext VNone VNone; RequestStop 1] ∅ in
  (SessionRunContext.stop_requested 1 h).1 = Ok (VBool true) ∧
  (SessionRunContext.stop_requested 1
     (SessionRunContext.__init__ 1 (VStr "step") (VRef 9) h).2).1 = Ok (VBool false).
Proof.
  intros h. split; [reflexivity|].
  assert (is_Some (h !! 1%positive)) as Hself by (vm_compute; eauto).
  destruct (init_assigns_three_attributes h 1%positive (VStr "step") (VRef 9) Hself)
    as (_ & _ & _ & Hflag & _).
  by rewrite Hflag.
Defined.

(** ** How [request_stop()] composes *)

(** X4. A second [request_stop()] on the same object does what the first did
    and nothing more. *)
Theorem request_stop_idempotent (self : loc) (h : heap) :
  SessionRunContext.request_stop self (SessionRunContext.request_stop self h).2
  = SessionRunContext.request_stop self h.
Proof.
  rewrite !request_stop_spec. destruct (h !! self) as [o|] eqn:Ho; simpl.
  - rewrite lookup_insert_eq. simpl. by rewrite !insert_insert_eq.
  - by rewrite Ho.
Qed.

(** X5. Stops requested on two objects leave the same heap in either order. *)
Theorem request_stop_commutes (A B : loc) (h : heap) :
  (SessionRunContext.request_stop A (SessionRunContext.request_stop B h).2).2
  = (SessionRunContext.request_stop B (SessionRunContext.request_stop A h).2).2.
Proof.
  destruct (decide (A = B)) as [->|Hne]; [done|].
  rewrite !request_stop_heap, !setattr_heap.
  destruct (h !! A) as [oA|] eqn:HA, (h !! B) as [oB|] eqn:HB;
    rewrite ?lookup_insert_ne, ?HA, ?HB by done; try done.
  by apply insert_insert_ne.
Qed.

(** X6. Property reads and the callbacks of [SessionRunHook] can be left out of
    a program: the heap it ends in is that of its constructions and
    [request_stop()] calls alone. *)
Theorem reads_and_callbacks_change_nothing (acts : list action) (h : heap) :
  run acts h = run (List.filter writes acts) h.
Proof.
  revert h. induction acts as [|a acts IH]; intros h; [done|].
  change (run (a :: acts) h) with (run acts (perform a h).2).
  rewrite IH. simpl.
  destruct (writes a) eqn:Hw; [done|].
  rewrite perform_heap. by destruct a.
Qed.

(** ** Equality of instances *)

(** Induction over values, with the items of lists, tuples and dictionaries
    as induction hypotheses. *)
Lemma value_nested_ind (P : value → Prop) :
  P VNone →
  (∀ b, P (VBool b)) →
  (∀ n, P (VInt n)) →
  (∀ s, P (VStr s)) →
  (∀ l, P (VRef l)) →
  (∀ xs, Forall P xs → P (VList xs)) →
  (∀ cls xs, Forall P xs → P (VTuple cls xs)) →
  (∀ kvs, Forall (λ kv, P kv.2) kvs → P (VDict kvs)) →
  ∀ v, P v.
Proof.
  intros HNone HBool HInt HStr HRef HList HTuple HDict.
  fix IH 1. intros [|b|n|s|l|xs|cls xs|kvs].
  - apply HNone.
  - apply HBool.
  - apply HInt.
  - apply HStr.
  - apply HRef.
  - apply HList. induction xs as [|x xs IHxs]; constructor; [apply IH|apply IHxs].
  - apply HTuple. induction xs as [|x xs IHxs]; constructor; [apply IH|apply IHxs].
  - apply HDict. induction kvs as [|[k x] kvs IHkvs]; constructor; [apply IH|apply IHkvs].
Qed.

Lemma seq_eq_refl {A} (eq : A → A → bool) (xs : list A) :
  Forall (λ x, eq x x = true) xs → seq_eq eq xs xs = true.
Proof. induction 1 as [|x xs Hx _ IH]; [done|]. simpl. by rewrite Hx, IH. Qed.

Lemma assoc_NoDup {A} (kvs : list (string * A)) k x :
  NoDup kvs.*1 → (k, x) ∈ kvs → assoc k kvs = Some x.
Proof.
  induction kvs as [|[k' x'] kvs IH]; intros Hnd Hin; [by apply elem_of_nil in Hin|].
  rewrite fmap_cons in Hnd. apply NoDup_cons in Hnd as [Hk' Hnd]. simpl in *.
  apply elem_of_cons in Hin as [[= -> ->]|Hin].
  - by rewrite String.eqb_refl.
  - destruct (String.eqb_spec k k') as [->|Hne]; [|by apply IH].
    exfalso. apply Hk'. apply list_elem_of_fmap. by exists (k', x).
Qed.

(** A value in which no dictionary has a key twice is equal to itself. *)
Lemma py_eq_refl : ∀ v, keys_distinct v = true → py_eq v v = true.
Proof.
  assert (∀ xs, Forall (λ v, keys_distinct v = true → py_eq v v = true) xs →
                forallb keys_distinct xs = true →
                seq_eq py_eq xs xs = true) as Hseq.
  { intros xs IH Hwf. apply seq_eq_refl.
    rewrite forallb_forall in Hwf. rewrite Forall_forall in IH |- *.
    intros x Hx. apply IH; [done|]. by apply Hwf, list_elem_of_In. }
  induction v as [|b|n|s|l|xs IH|cls xs IH|kvs IH] using value_nested_ind;
    intros Hwf; simpl in *.
  - done.
  - by destruct b.
  - apply Z.eqb_refl.
  - apply String.eqb_refl.
  - apply Pos.eqb_refl.
  - by apply Hseq.
  - by apply Hseq.
  - apply andb_true_iff in Hwf as [Hnd Hwf].
    apply bool_decide_eq_true in Hnd.
    unfold dict_eq. rewrite Nat.eqb_refl. simpl.
    rewrite forallb_forall in Hwf |- *. rewrite Forall_forall in IH.
    intros [k x] Hin. apply list_elem_of_In in Hin. simpl.
    rewrite (assoc_NoDup kvs k x); [|done|done].
    apply (IH (k, x)); [done|]. by apply (Hwf (k, x)), list_elem_of_In.
Qed.

(** X15. An instance of either namedtuple is equal to itself, and so to another
    built from the same values, when no dictionary in its fields has a key
    twice. *)
Theorem namedtuple_eq_refl (x y z : value) :
  keys_distinct x = true → keys_distinct y = true → keys_distinct z = true →
  (∃ a b,
      SessionRunArgs.call [x; y; z] ∅ = Ok a ∧
      SessionRunArgs.call [x; y; z] ∅ = Ok b ∧
      py_eq a b = true) ∧
  (∃ a b,
      SessionRunValues.call [x; y; z] ∅ = Ok a ∧
      SessionRunValues.call [x; y; z] ∅ = Ok b ∧
      py_eq a b = true).
Proof.
  intros Hx Hy Hz.
  assert (seq_eq py_eq [x; y; z] [x; y; z] = true) as Heq.
  { by rewrite seq_eq_3, !py_eq_refl. }
  split; eexists _, _; (split; [reflexivity|split; [reflexivity|exact Heq]]).
Qed.

Lemma namedtuple_eq_refl_witness :
  py_eq (VTuple "SessionRunArgs"
           [VDict [("step", VRef 1); ("ops", VList [VRef 2; VRef 3])]; VNone; VNone])
        (VTuple "SessionRunArgs"
           [VDict [("step", VRef 1); ("ops", VList [VRef 2; VRef 3])]; VNone; VNone])
  = true.
Proof.
  destruct (namedtuple_eq_refl
              (VDict [("step", VRef 1); ("ops", VList [VRef 2; VRef 3])]) VNone VNone)
    as [(a & b & Ha & Hb & Heq) _]; [reflexivity|reflexivity|reflexivity|].
  injection Ha as <-. injection Hb as <-. exact Heq.
Defined.
